(** * LoginPage: a page object over a browser-automation library

    Embedding of [src/pages/loginPage.ts].  The class is glue code: every
    method is a straight-line sequence of awaited calls into the automation
    library (navigation, visibility queries, clicks, fills, polling
    assertions) and, in one place, into the logger.  The library and the
    browser behind it are the environment: they are taken as an arbitrary
    world type with an arbitrary handler, so that every theorem about a
    method holds for every DOM, every timing and every failure the library
    can produce. *)

From Stdlib Require Import String Ascii List ZArith Bool Lia.
Import ListNotations.
Local Open Scope string_scope.
Local Open Scope Z_scope.
Local Open Scope list_scope.

(** ** Data model *)

(** The session handle ([Page] of the library): an opaque reference to one
    browser tab. *)
Inductive Page : Type := PageHandle (id : nat).

(** Options object of [getByRole]: [{ name, exact? }]. *)
Record ByRoleOptions : Type := mkByRoleOptions {
  name : string;
  exact : option bool
}.

(** A locator is a deferred query: the page it was created on and the
    selector it will resolve when used. *)
Inductive Selector : Type :=
| ByRole (role : string) (options : ByRoleOptions)
| ByText (text : string).

Record Locator : Type := mkLocator {
  loc_page : Page;
  loc_selector : Selector
}.

Definition getByRole (page : Page) (role : string) (options : ByRoleOptions) : Locator :=
  {| loc_page := page; loc_selector := ByRole role options |}.

Definition getByText (page : Page) (text : string) : Locator :=
  {| loc_page := page; loc_selector := ByText text |}.

(** Lifecycle events a navigation can wait for. *)
Inductive WaitUntil : Type := load | domcontentloaded | networkidle | commit.

Record GotoOptions : Type := mkGotoOptions { waitUntil : WaitUntil }.

(** Options object of the polling assertions: [{ timeout }], milliseconds. *)
Record ExpectOptions : Type := mkExpectOptions { timeout : Z }.

(** Structured payload of the warning: [{ error: <string> }]. *)
Record WarnMeta : Type := mkWarnMeta { meta_error : string }.

(** Values a rejected promise can carry: an [Error] instance with its
    [message], or any other value, known by what [String(v)] gives. *)
Inductive JsValue : Type :=
| JsError (message : string)
| JsOther (toString : string).

(** The constants module ([constants/timeouts]) is not among the sources:
    its two tables are parameters of the development. *)
Record TimeoutsTable : Type := mkTimeouts { MEDIUM : Z }.
Record ErrorMessagesTable : Type := mkErrorMessages { INVALID_LOGIN : string }.

(** The fields of the class. *)
Record LoginPage : Type := mkLoginPage {
  page : Page;
  loginTab : Locator;
  emailInput : Locator;
  passwordInput : Locator;
  loginButton : Locator;
  errorMessage : Locator;
  startShoppingButton : Locator
}.

(** ** Calls into the environment *)

Inductive Call : Type :=
| PageGoto (p : Page) (url : string) (options : option GotoOptions)
| LocatorIsVisible (l : Locator)
| LocatorClick (l : Locator)
| LocatorFill (l : Locator) (value : string)
| ExpectToBeVisible (l : Locator) (options : option ExpectOptions)
| ExpectToBeHidden (l : Locator) (options : option ExpectOptions)
| LoggerWarn (message : string) (meta : WarnMeta).

(** What an awaited call resolves to.  Only [isVisible] yields a value the
    class looks at; the response of [goto] is discarded by the source. *)
Definition reply (c : Call) : Type :=
  match c with
  | LocatorIsVisible _ => bool
  | _ => unit
  end.

Inductive Outcome (A : Type) : Type :=
| Returned (a : A)
| Thrown (e : JsValue).
Arguments Returned {A} a.
Arguments Thrown {A} e.

(** One entry of the observation log: the call that was awaited and, when
    it rejected, the value it rejected with. *)
Record Event : Type := mkEvent {
  ev_call : Call;
  ev_thrown : option JsValue
}.

Definition thrown_of {A : Type} (o : Outcome A) : option JsValue :=
  match o with
  | Returned _ => None
  | Thrown e => Some e
  end.

(** Polling assertions are the calls that wait for a condition. *)
Definition is_wait (c : Call) : bool :=
  match c with
  | ExpectToBeVisible _ _ | ExpectToBeHidden _ _ => true
  | _ => false
  end.

Definition is_click (c : Call) : bool :=
  match c with
  | LocatorClick _ => true
  | _ => false
  end.

(** The session handle a call goes to; the logger has none. *)
Definition call_page (c : Call) : option Page :=
  match c with
  | PageGoto p _ _ => Some p
  | LocatorIsVisible l | LocatorClick l | LocatorFill l _
  | ExpectToBeVisible l _ | ExpectToBeHidden l _ => Some (loc_page l)
  | LoggerWarn _ _ => None
  end.

(** The explicit timeout a call carries, if any. *)
Definition explicit_timeout (c : Call) : option Z :=
  match c with
  | ExpectToBeVisible _ (Some o) | ExpectToBeHidden _ (Some o) => Some (timeout o)
  | _ => None
  end.

(** ** Two environments to run the class in

    The class is verified against every environment.  Two concrete ones
    are used to run it: a scripted one, which replays a list of replies and
    can therefore inject any failure at any call, and a small browser with
    a DOM and a clock. *)

Module Scripted.

Inductive Step : Type :=
| Resolve
| ResolveWith (b : bool)
| Reject (e : JsValue).

Definition World : Type := list Step.

Definition resolved (c : Call) (b : bool) : reply c :=
  match c return reply c with
  | LocatorIsVisible _ => b
  | _ => tt
  end.

Definition answer (c : Call) (r : Step) : Outcome (reply c) :=
  match r with
  | Resolve => Returned (resolved c false)
  | ResolveWith b => Returned (resolved c b)
  | Reject e => Thrown e
  end.

(** Replay the next scripted reply; an exhausted script resolves. *)
Definition replay (c : Call) (w : World) : Outcome (reply c) * World :=
  match w with
  | [] => (answer c Resolve, [])
  | r :: w' => (answer c r, w')
  end.

(** The script drives the automation library; the logger just returns. *)
Definition lib (c : Call) (w : World) : Outcome (reply c) * World :=
  match c return Outcome (reply c) * World with
  | LoggerWarn _ _ => (Returned tt, w)
  | c' => replay c' w
  end.

End Scripted.

(** A browser with a static DOM and a clock, answering the calls the way
    the automation library documents them: a locator must resolve to one
    element, actions and "visible" assertions need it visible, a failed
    wait costs its timeout, a navigation completes at the lifecycle event
    it waits for. *)
Module Browser.

Record Element : Type := mkElement {
  el_role : string;
  el_name : string;
  el_text : string;
  el_visible : bool;
  el_closes_on_click : bool
}.

(** [milestone e]: how long after the start of a navigation the lifecycle
    event [e] fires; [default_timeout]: the wait of a call given none. *)
Record World : Type := mkWorld {
  clock : Z;
  milestone : WaitUntil -> Z;
  elements : list Element;
  default_timeout : Z;
  logged : list (string * WarnMeta)
}.

(** A navigation without [waitUntil] waits for the [load] event. *)
Definition effective_waitUntil (options : option GotoOptions) : WaitUntil :=
  match options with
  | None => load
  | Some o => waitUntil o
  end.

Definition effective_timeout (w : World) (options : option ExpectOptions) : Z :=
  match options with
  | None => default_timeout w
  | Some o => timeout o
  end.

Definition tick (d : Z) (w : World) : World :=
  mkWorld (clock w + d) (milestone w) (elements w) (default_timeout w) (logged w).

Definition with_elements (els : list Element) (w : World) : World :=
  mkWorld (clock w) (milestone w) els (default_timeout w) (logged w).

Definition log_warning (message : string) (meta : WarnMeta) (w : World) : World :=
  mkWorld (clock w) (milestone w) (elements w) (default_timeout w)
    (logged w ++ [(message, meta)]).

Section Library.

(** How the library compares a requested accessible name, or a
    requested text, with an element's: its first argument is the
    [exact] option as the caller gave it. *)
Variable name_matches : option bool -> string -> string -> bool.
Variable text_matches : string -> string -> bool.

Definition resolves (l : Locator) (el : Element) : bool :=
  match loc_selector l with
  | ByRole role o =>
      String.eqb role (el_role el) && name_matches (exact o) (name o) (el_name el)
  | ByText text => text_matches text (el_text el)
  end.

Definition strict_violation : JsValue :=
  JsError "strict mode violation: locator resolved to several elements".

Definition timed_out : JsValue := JsError "Timeout exceeded".

(** The single element a locator resolves to, if any; several
    matches are a strict-mode violation. *)
Definition resolve (l : Locator) (w : World) : Outcome (option Element) :=
  match filter (resolves l) (elements w) with
  | [] => Returned None
  | [el] => Returned (Some el)
  | _ => Thrown strict_violation
  end.

Definition currently_visible (l : Locator) (w : World) : Outcome bool :=
  match resolve l w with
  | Returned None => Returned false
  | Returned (Some el) => Returned (el_visible el)
  | Thrown e => Thrown e
  end.

Definition after_click (l : Locator) (el : Element) : Element :=
  if resolves l el && el_closes_on_click el
  then mkElement (el_role el) (el_name el) (el_text el) false (el_closes_on_click el)
  else el.

Definition after_fill (l : Locator) (value : string) (el : Element) : Element :=
  if resolves l el
  then mkElement (el_role el) (el_name el) value (el_visible el) (el_closes_on_click el)
  else el.

Definition lib (c : Call) (w : World) : Outcome (reply c) * World :=
  match c return Outcome (reply c) * World with
  | PageGoto _ _ options =>
      (Returned tt, tick (milestone w (effective_waitUntil options)) w)
  | LocatorIsVisible l =>
      (currently_visible l w, w)
  | LocatorClick l =>
      match currently_visible l w with
      | Returned true => (Returned tt, with_elements (map (after_click l) (elements w)) w)
      | Returned false => (Thrown timed_out, tick (default_timeout w) w)
      | Thrown e => (Thrown e, w)
      end
  | LocatorFill l value =>
      match currently_visible l w with
      | Returned true => (Returned tt, with_elements (map (after_fill l value) (elements w)) w)
      | Returned false => (Thrown timed_out, tick (default_timeout w) w)
      | Thrown e => (Thrown e, w)
      end
  | ExpectToBeVisible l options =>
      match currently_visible l w with
      | Returned true => (Returned tt, w)
      | Returned false => (Thrown timed_out, tick (effective_timeout w options) w)
      | Thrown e => (Thrown e, w)
      end
  | ExpectToBeHidden l options =>
      match currently_visible l w with
      | Returned false => (Returned tt, w)
      | Returned true => (Thrown timed_out, tick (effective_timeout w options) w)
      | Thrown e => (Thrown e, w)
      end
  | LoggerWarn message meta =>
      (Returned tt, log_warning message meta w)
  end.

End Library.

(** The matching the library documents: an exact name is the whole
    string, case-sensitive; otherwise a case-insensitive substring. *)
Definition lower_ascii (a : ascii) : ascii :=
  let n := nat_of_ascii a in
  if ((65 <=? n) && (n <=? 90))%nat then ascii_of_nat (n + 32) else a.

Fixpoint lower (s : string) : string :=
  match s with
  | EmptyString => EmptyString
  | String a s' => String (lower_ascii a) (lower s')
  end.

Fixpoint contains (pat s : string) : bool :=
  String.prefix pat s ||
  match s with
  | EmptyString => false
  | String _ s' => contains pat s'
  end.

Definition documented_text_matches (pat s : string) : bool :=
  contains (lower pat) (lower s).

Definition documented_name_matches (exact : option bool) (pat s : string) : bool :=
  match exact with
  | Some true => String.eqb pat s
  | _ => documented_text_matches pat s
  end.

End Browser.

(** Entries that are neither a click nor a wait. *)
Definition quiet (l : list Event) : Prop :=
  forall ev, In ev l -> is_click (ev_call ev) = false /\ is_wait (ev_call ev) = false.

(** A property of every entry of a log together with what follows it. *)
Fixpoint each_with_rest (P : Event -> list Event -> Prop) (l : list Event) : Prop :=
  match l with
  | [] => True
  | ev :: tl => P ev tl /\ each_with_rest P tl
  end.

(** The [exact] option a locator was created with, if it has one. *)
Definition locator_exact (l : Locator) : option bool :=
  match loc_selector l with
  | ByRole _ o => exact o
  | ByText _ => None
  end.

(** The [Locator]-typed fields of the object. *)
Definition locators (o : LoginPage) : list Locator :=
  [loginTab o; emailInput o; passwordInput o; loginButton o; errorMessage o;
   startShoppingButton o].

(** ** The class, over an arbitrary environment *)

Section LoginPageClass.

Variable World : Type.
Variable lib : forall c : Call, World -> Outcome (reply c) * World.
Variable TIMEOUTS : TimeoutsTable.
Variable ERROR_MESSAGES : ErrorMessagesTable.

(** The state a method runs in: the receiver object and the world. *)
Record State : Type := mkState {
  this : LoginPage;
  world : World
}.

(** What running a computation gives: how it completed, the state it
    left, and the calls it awaited, in order. *)
Record Result (A : Type) : Type := mkResult {
  outcome : Outcome A;
  final : State;
  events : list Event
}.
Arguments mkResult {A} _ _ _.
Arguments outcome {A} _.
Arguments final {A} _.
Arguments events {A} _.

Definition M (A : Type) : Type := State -> Result A.

Definition ret {A : Type} (a : A) : M A :=
  fun s => mkResult (Returned a) s [].

Definition bind {A B : Type} (m : M A) (k : A -> M B) : M B :=
  fun s =>
    match m s with
    | mkResult (Returned a) s' evs =>
        match k a s' with
        | mkResult o s'' evs' => mkResult o s'' (evs ++ evs')
        end
    | mkResult (Thrown e) s' evs => mkResult (Thrown e) s' evs
    end.

(** [try { body } catch (error) { handler error }] *)
Definition try_catch {A : Type} (body : M A) (handler : JsValue -> M A) : M A :=
  fun s =>
    match body s with
    | mkResult (Returned a) s' evs => mkResult (Returned a) s' evs
    | mkResult (Thrown e) s' evs =>
        match handler e s' with
        | mkResult o s'' evs' => mkResult o s'' (evs ++ evs')
        end
    end.

(** [await c]: hand the call to the environment and record it. *)
Definition await (c : Call) : M (reply c) :=
  fun s =>
    let (o, w) := lib c (world s) in
    mkResult o (mkState (this s) w) [mkEvent c (thrown_of o)].

(** A synchronous call, as [logger.warn(...)] is: it returns or throws
    where it stands, the way an awaited call does. *)
Definition call (c : Call) : M (reply c) := await c.

(** [this.f] *)
Definition field {A : Type} (f : LoginPage -> A) : M A :=
  fun s => mkResult (Returned (f (this s))) s [].

(** [this.f = v], one definition per field. *)
Definition assign (update : LoginPage -> LoginPage) : M unit :=
  fun s => mkResult (Returned tt) (mkState (update (this s)) (world s)) [].

Definition set_page (v : Page) (o : LoginPage) : LoginPage :=
  mkLoginPage v (loginTab o) (emailInput o) (passwordInput o) (loginButton o)
    (errorMessage o) (startShoppingButton o).
Definition set_loginTab (v : Locator) (o : LoginPage) : LoginPage :=
  mkLoginPage (page o) v (emailInput o) (passwordInput o) (loginButton o)
    (errorMessage o) (startShoppingButton o).
Definition set_emailInput (v : Locator) (o : LoginPage) : LoginPage :=
  mkLoginPage (page o) (loginTab o) v (passwordInput o) (loginButton o)
    (errorMessage o) (startShoppingButton o).
Definition set_passwordInput (v : Locator) (o : LoginPage) : LoginPage :=
  mkLoginPage (page o) (loginTab o) (emailInput o) v (loginButton o)
    (errorMessage o) (startShoppingButton o).
Definition set_loginButton (v : Locator) (o : LoginPage) : LoginPage :=
  mkLoginPage (page o) (loginTab o) (emailInput o) (passwordInput o) v
    (errorMessage o) (startShoppingButton o).
Definition set_errorMessage (v : Locator) (o : LoginPage) : LoginPage :=
  mkLoginPage (page o) (loginTab o) (emailInput o) (passwordInput o) (loginButton o)
    v (startShoppingButton o).
Definition set_startShoppingButton (v : Locator) (o : LoginPage) : LoginPage :=
  mkLoginPage (page o) (loginTab o) (emailInput o) (passwordInput o) (loginButton o)
    (errorMessage o) v.

Notation "x <- m ;; k" := (bind m (fun x => k))
  (at level 100, m at next level, right associativity).
Notation "m ;;; k" := (bind m (fun _ => k))
  (at level 100, right associativity).

(** [error instanceof Error ? error.message : String(error)] *)
Definition error_reason (error : JsValue) : string :=
  match error with
  | JsError message => message
  | JsOther s => s
  end.

(** [constructor(page: Page)] *)
Definition constructor (page : Page) : M unit :=
  assign (set_page page) ;;;
  assign (set_loginTab (getByRole page "tab" (mkByRoleOptions "Log in" None))) ;;;
  assign (set_emailInput (getByRole page "textbox" (mkByRoleOptions "Email" None))) ;;;
  assign (set_passwordInput (getByRole page "textbox" (mkByRoleOptions "Password" None))) ;;;
  assign (set_loginButton (getByRole page "button" (mkByRoleOptions "Log in" None))) ;;;
  assign (set_errorMessage (getByText page (INVALID_LOGIN ERROR_MESSAGES))) ;;;
  assign (set_startShoppingButton
            (getByRole page "button" (mkByRoleOptions "Start Shopping" (Some true)))).

(** [async goto()] *)
Definition goto : M unit :=
  p <- field page ;;
  await (PageGoto p "/login" None).

(** [async maybeCloseWelcomePopup()] *)
Definition maybeCloseWelcomePopup : M unit :=
  try_catch
    (b <- field startShoppingButton ;;
     isVisible <- await (LocatorIsVisible b) ;;
     if (isVisible : bool) then
       (b1 <- field startShoppingButton ;;
        await (LocatorClick b1) ;;;
        b2 <- field startShoppingButton ;;
        await (ExpectToBeHidden b2 (Some (mkExpectOptions (MEDIUM TIMEOUTS)))))
     else ret tt)
    (fun error =>
       call (LoggerWarn "Welcome popup handling failed"
               (mkWarnMeta (error_reason error)))).

(** [async login(email, password)] *)
Definition login (email password : string) : M unit :=
  p <- field page ;;
  await (PageGoto p "/login" (Some (mkGotoOptions domcontentloaded))) ;;;
  maybeCloseWelcomePopup ;;;
  t <- field loginTab ;;
  await (ExpectToBeVisible t (Some (mkExpectOptions (MEDIUM TIMEOUTS)))) ;;;
  t' <- field loginTab ;;
  await (LocatorClick t') ;;;
  e <- field emailInput ;;
  await (ExpectToBeVisible e (Some (mkExpectOptions (MEDIUM TIMEOUTS)))) ;;;
  pw <- field passwordInput ;;
  await (ExpectToBeVisible pw None) ;;;
  e' <- field emailInput ;;
  await (LocatorFill e' email) ;;;
  pw' <- field passwordInput ;;
  await (LocatorFill pw' password) ;;;
  b <- field loginButton ;;
  await (LocatorClick b).

(** [async expectErrorVisible()] *)
Definition expectErrorVisible : M unit :=
  m <- field errorMessage ;;
  await (ExpectToBeVisible m (Some (mkExpectOptions (MEDIUM TIMEOUTS)))).

(** [async expectStillOnLoginPage()] *)
Definition expectStillOnLoginPage : M unit :=
  t <- field loginTab ;;
  await (ExpectToBeVisible t (Some (mkExpectOptions (MEDIUM TIMEOUTS)))) ;;;
  e <- field emailInput ;;
  await (ExpectToBeVisible e None) ;;;
  pw <- field passwordInput ;;
  await (ExpectToBeVisible pw None).

(** The operations a test can invoke on a constructed page object. *)
Inductive Op : Type :=
| OpGoto
| OpMaybeCloseWelcomePopup
| OpLogin (email password : string)
| OpExpectErrorVisible
| OpExpectStillOnLoginPage.

Definition invoke (op : Op) : M unit :=
  match op with
  | OpGoto => goto
  | OpMaybeCloseWelcomePopup => maybeCloseWelcomePopup
  | OpLogin email password => login email password
  | OpExpectErrorVisible => expectErrorVisible
  | OpExpectStillOnLoginPage => expectStillOnLoginPage
  end.

(** A test that invokes operations one after the other, going on whether
    or not one of them threw (a test may catch). *)
Fixpoint lifetime (ops : list Op) (s : State) : State :=
  match ops with
  | [] => s
  | op :: ops' => lifetime ops' (final (invoke op s))
  end.

(** The page object as a test gets it: built by the constructor, then
    used in whatever world the session is in by then. *)
Definition constructed (p : Page) (blank : LoginPage) (w : World) : State :=
  mkState (this (final (constructor p (mkState blank w)))) w.

Definition calls {A : Type} (r : Result A) : list Call := map ev_call (events r).

Definition medium : option ExpectOptions := Some (mkExpectOptions (MEDIUM TIMEOUTS)).

(** The calls of the popup-dismissal step on button [b]. *)
Definition popup_call (b : Locator) (c : Call) : Prop :=
  c = LocatorIsVisible b \/ c = LocatorClick b \/ c = ExpectToBeHidden b medium.

(** The steps the specification lists for [login] after the navigation and
    the popup dismissal. *)
Definition spec_login_steps (self : LoginPage) (email password : string) : list Call :=
  [ ExpectToBeVisible (loginTab self) medium;
    LocatorClick (loginTab self);
    ExpectToBeVisible (emailInput self) medium;
    ExpectToBeVisible (passwordInput self) None;
    LocatorFill (emailInput self) email;
    LocatorFill (passwordInput self) password;
    LocatorClick (loginButton self) ].

(** A computation that leaves the receiver object as it found it. *)
Definition keeps_this {A : Type} (m : M A) : Prop :=
  forall s, this (final (m s)) = this s.

End LoginPageClass.

Arguments mkState {World} _ _.
Arguments this {World} _.
Arguments world {World} _.
Arguments mkResult {World A} _ _ _.
Arguments outcome {World A} _.
Arguments final {World A} _.
Arguments events {World A} _.
Arguments ret {World A} _ _.
Arguments bind {World A B} _ _ _.
Arguments try_catch {World A} _ _ _.
Arguments await {World} _ _ _.
Arguments call {World} _ _ _.
Arguments field {World A} _ _.
Arguments assign {World} _ _.
Arguments constructor {World} _ _ _.
Arguments goto {World} _ _.
Arguments maybeCloseWelcomePopup {World} _ _ _.
Arguments login {World} _ _ _ _ _.
Arguments expectErrorVisible {World} _ _ _.
Arguments expectStillOnLoginPage {World} _ _ _.
Arguments invoke {World} _ _ _ _.
Arguments lifetime {World} _ _ _ _.
Arguments constructed {World} _ _ _ _.
Arguments calls {World A} _.
Arguments keeps_this {World A} _.

(** ** Sample data for concrete runs *)

Module Sample.

Definition timeouts : TimeoutsTable := mkTimeouts 10000.

Definition messages : ErrorMessagesTable := mkErrorMessages "Invalid email or password".

Definition tab : Page := PageHandle 1.

(** A freshly allocated object, before the constructor has run. *)
Definition blank : LoginPage :=
  let nothing := getByText (PageHandle 0) "" in
  mkLoginPage (PageHandle 0) nothing nothing nothing nothing nothing nothing.

(** The object the constructor builds for [tab]. *)
Definition self : LoginPage :=
  this (constructed (World := unit) messages tab blank tt).

Definition dismiss : Locator := startShoppingButton self.

Definition element (role name : string) (visible closes : bool) : Browser.Element :=
  Browser.mkElement role name name visible closes.

(** The login form, behind a welcome popup whose button is named
    [popup_name]. *)
Definition login_screen (popup_name : string) : list Browser.Element :=
  [ element "button" popup_name true true;
    element "tab" "Log in" true false;
    element "textbox" "Email" true false;
    element "textbox" "Password" true false;
    element "button" "Log in" true false ].

(** A page that fires [domcontentloaded] after 120 ms and [load] after
    900 ms. *)
Definition lifecycle (e : WaitUntil) : Z :=
  match e with
  | commit => 40
  | domcontentloaded => 120
  | load => 900
  | networkidle => 1500
  end.

Definition browser (popup_name : string) : Browser.World :=
  Browser.mkWorld 0 lifecycle (login_screen popup_name) 5000 [].

Definition documented_lib : forall c : Call, Browser.World -> Outcome (reply c) * Browser.World :=
  Browser.lib Browser.documented_name_matches Browser.documented_text_matches.

End Sample.

(** ** Further vocabulary for reading a log *)

Definition is_warning (ev : Event) : bool :=
  match ev_call ev with
  | LoggerWarn _ _ => true
  | _ => false
  end.

(** The part of a log that comes before the first [fill]. *)
Fixpoint until_fill (l : list Event) : list Event :=
  match l with
  | [] => []
  | ev :: tl =>
      match ev_call ev with
      | LocatorFill _ _ => []
      | _ => ev :: until_fill tl
      end
  end.

(** A property of every entry of a log together with what came before
    it, [seen] being what came before the log itself. *)
Fixpoint each_with_before (P : list Event -> Event -> Prop) (seen l : list Event) : Prop :=
  match l with
  | [] => True
  | ev :: tl => P seen ev /\ each_with_before P (seen ++ [ev]) tl
  end.

(** What "performing a sequence of calls" means, to compare the methods
    with: each call is handed to the environment in the world the previous
    one left, the object being left alone; the first call that throws ends
    the sequence, which throws what that call threw. *)
Fixpoint in_sequence {World : Type}
    (lib : forall c : Call, World -> Outcome (reply c) * World)
    (cs : list Call) (s : State World) : Result World unit :=
  match cs with
  | [] => mkResult (Returned tt) s []
  | c :: cs' =>
      match lib c (world s) with
      | (Returned _, w) =>
          match in_sequence lib cs' (mkState (this s) w) with
          | mkResult o s' evs => mkResult o s' (mkEvent c None :: evs)
          end
      | (Thrown e, w) =>
          mkResult (Thrown e) (mkState (this s) w) [mkEvent c (Some e)]
      end
  end.

(** The warning the popup dismissal logs for a failure [e]. *)
Definition popup_warning (e : JsValue) : Call :=
  LoggerWarn "Welcome popup handling failed" (mkWarnMeta (error_reason e)).

(** The calls of [login] in which neither credential occurs. *)
Definition credential_free_calls (T : TimeoutsTable) (self : LoginPage) : list Call :=
  [ PageGoto (page self) "/login" (Some (mkGotoOptions domcontentloaded));
    LocatorIsVisible (startShoppingButton self);
    LocatorClick (startShoppingButton self);
    ExpectToBeHidden (startShoppingButton self) (medium T);
    ExpectToBeVisible (loginTab self) (medium T);
    LocatorClick (loginTab self);
    ExpectToBeVisible (emailInput self) (medium T);
    ExpectToBeVisible (passwordInput self) None;
    LocatorClick (loginButton self) ].

(** In the browser: some element the locator matches is visible. *)
Definition shows (name_matches : option bool -> string -> string -> bool)
    (text_matches : string -> string -> bool) (l : Locator) (b : Browser.World) : bool :=
  existsb (fun el => Browser.resolves name_matches text_matches l el && Browser.el_visible el)
    (Browser.elements b).

(** The elements of a page the locator matches. *)
Definition matches_of (name_matches : option bool -> string -> string -> bool)
    (text_matches : string -> string -> bool) (l : Locator) (b : Browser.World)
    : list Browser.Element :=
  filter (Browser.resolves name_matches text_matches l) (Browser.elements b).

Module SamplePages.

(** The login form after a rejected login, the error text shown twice:
    as a banner and under the password field. *)
Definition rejected_twice : Browser.World :=
  Browser.mkWorld 0 Sample.lifecycle
    [ Sample.element "alert" "Invalid email or password" true false;
      Sample.element "tab" "Log in" true false;
      Sample.element "textbox" "Email" true false;
      Sample.element "textbox" "Password" true false;
      Sample.element "status" "Invalid email or password" true false;
      Sample.element "button" "Log in" true false ]
    5000 [].

(** The same form with the error text shown once. *)
Definition rejected_once : Browser.World :=
  Browser.mkWorld 0 Sample.lifecycle
    [ Sample.element "alert" "Invalid email or password" true false;
      Sample.element "tab" "Log in" true false;
      Sample.element "textbox" "Email" true false;
      Sample.element "textbox" "Password" true false;
      Sample.element "button" "Log in" true false ]
    5000 [].

(** A page that is not the login form. *)
Definition elsewhere : Browser.World :=
  Browser.mkWorld 0 Sample.lifecycle
    [ Sample.element "heading" "Your orders" true false ] 5000 [].

Definition error_text : Locator := errorMessage Sample.self.

End SamplePages.

(** ** The class in an arbitrary environment: what every run satisfies *)

Section LoginPageFacts.

Variable World : Type.
Variable lib : forall c : Call, World -> Outcome (reply c) * World.
Variable TIMEOUTS : TimeoutsTable.
Variable ERROR_MESSAGES : ErrorMessagesTable.

(** Ask the environment for its reply to the next call and go on in each
    of the ways it can answer. *)
Ltac ask_env :=
  match goal with
  | |- context [lib ?c ?w] =>
      is_var w;
      let o := fresh "o" in
      let w' := fresh "w" in
      let E := fresh "E" in
      let x := fresh "thrown" in
      destruct (lib c w) as [o w'] eqn:E; simpl in o;
      destruct o as [[] | x]; simpl in *
  end.

Ltac run_method :=
  unfold calls, medium, invoke, login, goto, maybeCloseWelcomePopup,
    expectErrorVisible, expectStillOnLoginPage, bind, try_catch, call, await, field, ret;
  simpl.

Ltac logger_ok H :=
  match goal with
  | E : lib (LoggerWarn ?m ?p) ?w = (Thrown _, _) |- _ =>
      exfalso; generalize (H m p w); rewrite E; simpl; discriminate
  end.

Ltac split_last :=
  match goal with
  | |- exists before, exists c, ?l = _ =>
      exists (removelast l); simpl; eexists; reflexivity
  end.

Lemma each_with_rest_split (P : Event -> list Event -> Prop) (l : list Event) :
  each_with_rest P l ->
  forall before ev after, l = before ++ ev :: after -> P ev after.
Proof.
  intros H before. revert l H.
  induction before as [| x before IH]; intros l H ev after ->; simpl in H.
  - apply H.
  - destruct H as [_ H]. eapply IH; [exact H | reflexivity].
Qed.


(** The one way left for the popup dismissal to throw: the logger's own
    warning call throwing, which nothing catches. *)
Remark maybeCloseWelcomePopup_throws_only_from_logger :
  forall (s : State World) (e : JsValue),
    outcome (maybeCloseWelcomePopup lib TIMEOUTS s) = Thrown e ->
    exists before message meta,
      events (maybeCloseWelcomePopup lib TIMEOUTS s) =
        before ++ [mkEvent (LoggerWarn message meta) (Some e)].
Proof.
  intros [self w0] e.
  run_method.
  repeat ask_env; intros Ho; try discriminate Ho; inversion Ho; subst.
  all: match goal with
       | |- exists before, exists m, exists p, ?l = _ =>
           exists (removelast l); simpl; do 2 eexists; reflexivity
       end.
Qed.

Ltac reuse_env :=
  repeat match goal with
         | E : lib ?c ?w = _ |- context [lib ?c ?w] => rewrite E; simpl
         end.

Lemma popup_dismissal_costs_nothing_when_absent
    (name_matches : option bool -> string -> string -> bool)
    (text_matches : string -> string -> bool) (self : LoginPage) (bw : Browser.World) :
  Browser.currently_visible name_matches text_matches (startShoppingButton self) bw =
    Returned false ->
  maybeCloseWelcomePopup (Browser.lib name_matches text_matches) TIMEOUTS (mkState self bw) =
  mkResult (Returned tt) (mkState self bw)
    [mkEvent (LocatorIsVisible (startShoppingButton self)) None].
Proof.
  intros Hvis.
  unfold maybeCloseWelcomePopup, bind, try_catch, call, await, field, ret.
  cbn -[Browser.currently_visible]. rewrite Hvis. reflexivity.
Qed.

(** C5. The popup dismissal starts with a visibility query on the dismiss
    button, which is not a wait and carries no timeout.  If the library
    answers "visible", the button is clicked and then awaited hidden,
    bounded by [TIMEOUTS.MEDIUM], each call being handed to the library in
    the world the previous one left: when both return, the operation
    returns in the world the hidden-wait left; when one throws, the
    warning is logged in the world that call left.  There is no other
    click or wait.  If the library answers "not visible", nothing else
    happens: no click, no wait, a normal return, and the world is as the
    query left it; in the browser that is the very world, clock included,
    the operation started in.  If the query itself throws, only the
    warning follows. *)
Theorem maybeCloseWelcomePopup_clicks_iff_visible :
  forall s : State World,
    let b := startShoppingButton (this s) in
    let r := maybeCloseWelcomePopup lib TIMEOUTS s in
    (is_wait (LocatorIsVisible b) = false /\
     explicit_timeout (LocatorIsVisible b) = None /\
     exists o tl, events r = mkEvent (LocatorIsVisible b) o :: tl) /\
    (forall w1, lib (LocatorIsVisible b) (world s) = (Returned true, w1) ->
       (exists oc tl,
          events r =
            mkEvent (LocatorIsVisible b) None :: mkEvent (LocatorClick b) oc :: tl /\
          match oc with
          | None =>
              exists oh tl',
                tl = mkEvent (ExpectToBeHidden b (medium TIMEOUTS)) oh :: tl' /\
                quiet tl'
          | Some _ => quiet tl
          end) /\
       let rc :=
         in_sequence lib [LocatorClick b; ExpectToBeHidden b (medium TIMEOUTS)]
           (mkState (this s) w1) in
       (outcome rc = Returned tt ->
        r = mkResult (Returned tt) (final rc)
              (mkEvent (LocatorIsVisible b) None :: events rc)) /\
       (forall e, outcome rc = Thrown e ->
          let rw := in_sequence lib [popup_warning e] (final rc) in
          r = mkResult (outcome rw) (final rw)
                (mkEvent (LocatorIsVisible b) None :: events rc ++ events rw))) /\
    (forall w1, lib (LocatorIsVisible b) (world s) = (Returned false, w1) ->
       events r = [mkEvent (LocatorIsVisible b) None] /\
       outcome r = Returned tt /\
       final r = mkState (this s) w1) /\
    (forall e w1, lib (LocatorIsVisible b) (world s) = (Thrown e, w1) ->
       let rw := in_sequence lib [popup_warning e] (mkState (this s) w1) in
       r = mkResult (outcome rw) (final rw)
             (mkEvent (LocatorIsVisible b) (Some e) :: events rw)) /\
    (forall name_matches text_matches (bw : Browser.World),
       Browser.currently_visible name_matches text_matches b bw = Returned false ->
       maybeCloseWelcomePopup (Browser.lib name_matches text_matches) TIMEOUTS
         (mkState (this s) bw) =
       mkResult (Returned tt) (mkState (this s) bw) [mkEvent (LocatorIsVisible b) None]).
Proof.
  intros [self w0]. unfold quiet, popup_warning.
  run_method.
  repeat ask_env.
  all: split; [ split; [reflexivity | split; [reflexivity | eauto]] | ].
  all: split;
    [ intros wv Hw;
      first
        [ discriminate Hw
        | inversion Hw; subst; clear Hw;
          split;
          [ do 2 eexists; (split; [reflexivity |]); simpl;
            try (do 2 eexists; split; [reflexivity |]);
            simpl; intros ev Hin;
            repeat match goal with
                   | H : _ \/ _ |- _ => destruct H
                   | H : False |- _ => destruct H
                   end; subst; simpl; split; reflexivity
          | reuse_env; split;
            [ intros Ho; first [ discriminate Ho | reflexivity ]
            | intros e Ho;
              first [ discriminate Ho
                    | inversion Ho; subst; reuse_env; reflexivity ] ] ] ]
    | ].
  all: split;
    [ intros wv Hw;
      first [ discriminate Hw
            | inversion Hw; subst; clear Hw;
              split; [reflexivity | split; reflexivity] ]
    | ].
  all: split;
    [ intros e wv Hw;
      first [ discriminate Hw
            | inversion Hw; subst; clear Hw; reuse_env; reflexivity ]
    | intros nm tm bw; apply popup_dismissal_costs_nothing_when_absent ].
Qed.

(** C2. For every email and password, and in every state, [login]
    performs, in order: the navigation to ["/login"] waiting for
    [domcontentloaded] only; the popup dismissal, run in the state the
    navigation left; then the wait for the login tab bounded by
    [TIMEOUTS.MEDIUM], the click on it, the wait for the email field
    bounded by [TIMEOUTS.MEDIUM], the wait for the password field without
    options, the fill of the email field with [email], the fill of the
    password field with [password], and the click on the login button,
    after which nothing is awaited.  Each call is handed to the library in
    the world the previous one left, and the world [login] ends in is the
    one its last call left.  A login that returns has made exactly these
    calls; one that throws has made an initial part of them and throws what
    its last call threw. *)
Theorem login_performs_spec_sequence :
  forall (email password : string) (s : State World),
    let self := this s in
    let nav := PageGoto (page self) "/login" (Some (mkGotoOptions domcontentloaded)) in
    let popup := calls (maybeCloseWelcomePopup lib TIMEOUTS (final (await lib nav s))) in
    let full := nav :: popup ++ spec_login_steps TIMEOUTS self email password in
    let r := login lib TIMEOUTS email password s in
    let r0 := in_sequence lib [nav] s in
    let rp := maybeCloseWelcomePopup lib TIMEOUTS (final r0) in
    let r1 := in_sequence lib (spec_login_steps TIMEOUTS self email password) (final rp) in
    (exists front, full = front ++ [LocatorClick (loginButton self)]) /\
    (exists rest, full = calls r ++ rest) /\
    (outcome r = Returned tt -> calls r = full) /\
    (forall e, outcome r = Thrown e ->
       exists before c, events r = before ++ [mkEvent c (Some e)]) /\
    (forall e, outcome r0 = Thrown e -> r = r0) /\
    (outcome r0 = Returned tt ->
     forall e, outcome rp = Thrown e ->
       r = mkResult (Thrown e) (final rp) (events r0 ++ events rp)) /\
    (outcome r0 = Returned tt ->
     outcome rp = Returned tt ->
     r = mkResult (outcome r1) (final r1) (events r0 ++ events rp ++ events r1)).
Proof.
  intros email password [self w0].
  split.
  { cbv zeta.
    match goal with
    | |- exists front, ?n :: ?p ++ ?st = _ => exists (n :: p ++ removelast st)
    end.
    rewrite <- app_comm_cons, <- app_assoc. reflexivity. }
  unfold spec_login_steps.
  run_method.
  repeat ask_env.
  all: split; [ eexists; reflexivity | ].
  all: split; [ intros Ho; try discriminate; reflexivity | ].
  all: split;
    [ intros e Ho; first [ discriminate Ho | inversion Ho; subst; clear Ho; split_last ]
    | ].
  all: split; [ intros e Ho; first [ discriminate Ho | reflexivity ] | ].
  all: split;
    [ intros Ho0 e Ho;
      first [ discriminate Ho0 | discriminate Ho | inversion Ho; subst; reflexivity ]
    | intros Ho0 Ho; first [ discriminate Ho0 | discriminate Ho | reflexivity ] ].
Qed.

Lemma propagation_by_entries {A : Type} (excused : Call -> Prop) (o : Outcome A)
    (l : list Event) :
  each_with_rest
    (fun ev tl =>
       forall e, ev_thrown ev = Some e ->
                 excused (ev_call ev) \/ (o = Thrown e /\ tl = [])) l ->
  forall before c e after,
    l = before ++ mkEvent c (Some e) :: after ->
    ~ excused c ->
    o = Thrown e /\ after = [].
Proof.
  intros H before c e after Hl Hnot.
  destruct (each_with_rest_split _ _ H _ _ _ Hl e eq_refl) as [Hp | Hok].
  - contradiction.
  - exact Hok.
Qed.

Ltac entries_propagate :=
  simpl;
  repeat split;
  let e := fresh "e" in
  let He := fresh "He" in
  intros e He; try discriminate He; inversion He; subst;
  first [ right; split; reflexivity
        | left; unfold popup_call, medium; tauto ].

(** C7. [expectStillOnLoginPage] checks, in this order, that the login tab
    is visible with a wait bounded by [TIMEOUTS.MEDIUM], that the email
    field is visible and that the password field is visible, the last two
    without options (the default wait of the library), each check being
    handed to the library in the world the previous one left.  A check
    that throws ends the operation, which throws the same value; when none
    throws, all three have been made and the operation returns. *)
Theorem expectStillOnLoginPage_checks_in_order :
  forall s : State World,
    let self := this s in
    let full :=
      [ ExpectToBeVisible (loginTab self) (medium TIMEOUTS);
        ExpectToBeVisible (emailInput self) None;
        ExpectToBeVisible (passwordInput self) None ] in
    let r := expectStillOnLoginPage lib TIMEOUTS s in
    r = in_sequence lib full s /\
    (exists rest, full = calls r ++ rest) /\
    (forall before c e after,
       events r = before ++ mkEvent c (Some e) :: after ->
       outcome r = Thrown e /\ after = []) /\
    ((forall ev, In ev (events r) -> ev_thrown ev = None) ->
     calls r = full /\ outcome r = Returned tt).
Proof.
  intros [self w0].
  run_method.
  repeat ask_env.
  all: split; [ reflexivity | ].
  all: split; [ eexists; reflexivity | ].
  all: split;
    [ intros before c e after Hev;
      refine (propagation_by_entries (fun _ => False) _ _ _ before c e after Hev
                (fun F => F));
      entries_propagate
    | ].
  all: intros Hall; first
         [ split; reflexivity
         | exfalso;
           match goal with
           | x : JsValue |- _ =>
               match type of Hall with
               | context [mkEvent ?c (Some x)] =>
                   specialize (Hall (mkEvent c (Some x))); simpl in Hall;
                   assert (Some x = None) by (apply Hall; tauto); discriminate
               end
           end ].
Qed.

Lemma keeps_this_ret {A : Type} (a : A) : keeps_this (ret (World := World) a).
Proof. intros s. reflexivity. Qed.

Lemma keeps_this_field {A : Type} (f : LoginPage -> A) :
  keeps_this (field (World := World) f).
Proof. intros s. reflexivity. Qed.

Lemma keeps_this_await (c : Call) : keeps_this (await lib c).
Proof. intros s. unfold await. destruct (lib c (world s)). reflexivity. Qed.

Lemma keeps_this_bind {A B : Type} (m : M World A) (k : A -> M World B) :
  keeps_this m -> (forall a, keeps_this (k a)) -> keeps_this (bind m k).
Proof.
  intros Hm Hk s. unfold bind. specialize (Hm s).
  destruct (m s) as [[a | e] s' evs]; simpl in *.
  - specialize (Hk a s'). destruct (k a s') as [o s'' evs']; simpl in *.
    congruence.
  - exact Hm.
Qed.

Lemma keeps_this_try_catch {A : Type} (body : M World A) (handler : JsValue -> M World A) :
  keeps_this body -> (forall e, keeps_this (handler e)) ->
  keeps_this (try_catch body handler).
Proof.
  intros Hb Hh s. unfold try_catch. specialize (Hb s).
  destruct (body s) as [[a | e] s' evs]; simpl in *.
  - exact Hb.
  - specialize (Hh e s'). destruct (handler e s') as [o s'' evs']; simpl in *.
    congruence.
Qed.

Ltac keeps :=
  repeat (cbv beta; first
    [ match goal with
      | |- forall _, keeps_this _ => intro
      | |- keeps_this (await _ ?c) => exact (keeps_this_await c)
      | |- keeps_this (call _ ?c) => exact (keeps_this_await c)
      | |- keeps_this (if ?b then _ else _) => destruct b
      end
    | apply keeps_this_bind
    | apply keeps_this_try_catch
    | apply keeps_this_field
    | apply keeps_this_ret ]).

Lemma keeps_this_invoke (op : Op) : keeps_this (invoke lib TIMEOUTS op).
Proof.
  destruct op; simpl.
  - unfold goto. keeps.
  - unfold maybeCloseWelcomePopup. keeps.
  - unfold login, maybeCloseWelcomePopup. keeps.
  - unfold expectErrorVisible. keeps.
  - unfold expectStillOnLoginPage. keeps.
Qed.

Lemma calls_stay_on_the_session (p : Page) (blank : LoginPage) (w : World) (op : Op) :
  forall c,
    In c (calls (invoke lib TIMEOUTS op (constructed ERROR_MESSAGES p blank w))) ->
    call_page c = Some p \/ call_page c = None.
Proof.
  unfold constructed.
  destruct op; run_method; repeat ask_env; intros c Hin; simpl in Hin;
    repeat (destruct Hin as [Hin | Hin]; [ subst c; simpl; tauto | ]);
    destruct Hin.
Qed.

(** C8. The object has no state of its own that changes: the constructor
    gives each of the seven fields (the session handle and the six
    locators) a value that depends on the session handle alone, and no
    operation, and so no sequence of operations over the lifetime of the
    object, changes any field.  Every call an operation makes on a page
    goes to the session handle the object was constructed with. *)
Theorem page_object_fields_are_fixed :
  forall (p : Page) (blank : LoginPage) (w : World),
    (forall s' : State World,
       this (final (constructor ERROR_MESSAGES p s')) =
       this (constructed ERROR_MESSAGES p blank w)) /\
    page (this (constructed ERROR_MESSAGES p blank w)) = p /\
    (forall (op : Op) (s : State World),
       this (final (invoke lib TIMEOUTS op s)) = this s) /\
    (forall (ops : list Op) (s : State World),
       this (lifetime lib TIMEOUTS ops s) = this s) /\
    (forall (op : Op) (w' : World) (c : Call),
       In c (calls (invoke lib TIMEOUTS op (constructed ERROR_MESSAGES p blank w'))) ->
       call_page c = Some p \/ call_page c = None).
Proof.
  intros p blank w. split; [| split; [| split; [| split]]].
  - intros [o' w']. reflexivity.
  - reflexivity.
  - intros op s. apply keeps_this_invoke.
  - intros ops. induction ops as [| op ops IH]; intros s; simpl.
    + reflexivity.
    + rewrite IH. apply keeps_this_invoke.
  - intros op w' c. apply calls_stay_on_the_session.
Qed.

(** C3 (as the code has it). For every session handle, the constructor
    binds six locators, the login tab, the email field, the password
    field, the login button, the error-message text and the exact-named
    "Start Shopping" button, and keeps the handle itself: seven fields.  It
    awaits nothing, leaves the world as it is, and returns. *)
Theorem constructor_binds_six_locators :
  forall (p : Page) (s : State World),
    let r := constructor ERROR_MESSAGES p s in
    outcome r = Returned tt /\
    events r = [] /\
    world (final r) = world s /\
    this (final r) =
      mkLoginPage p
        (getByRole p "tab" (mkByRoleOptions "Log in" None))
        (getByRole p "textbox" (mkByRoleOptions "Email" None))
        (getByRole p "textbox" (mkByRoleOptions "Password" None))
        (getByRole p "button" (mkByRoleOptions "Log in" None))
        (getByText p (INVALID_LOGIN ERROR_MESSAGES))
        (getByRole p "button" (mkByRoleOptions "Start Shopping" (Some true))) /\
    length (locators (this (final r))) = 6%nat /\
    NoDup (locators (this (final r))).
Proof.
  intros p [o w]. simpl.
  repeat split.
  unfold locators, getByRole, getByText. simpl.
  repeat constructor; simpl; intuition discriminate.
Qed.

Lemma shows_through_matches
    (name_matches : option bool -> string -> string -> bool)
    (text_matches : string -> string -> bool) (l : Locator) (b : Browser.World) :
  shows name_matches text_matches l b =
  existsb Browser.el_visible (matches_of name_matches text_matches l b).
Proof.
  unfold shows, matches_of.
  induction (Browser.elements b) as [| el els IH]; simpl.
  - reflexivity.
  - destruct (Browser.resolves name_matches text_matches l el); simpl.
    + rewrite IH. reflexivity.
    + exact IH.
Qed.

Lemma expectErrorVisible_in_browser
    (name_matches : option bool -> string -> string -> bool)
    (text_matches : string -> string -> bool)
    (p : Page) (blank : LoginPage) (b : Browser.World) :
  let s := constructed ERROR_MESSAGES p blank b in
  let l := getByText p (INVALID_LOGIN ERROR_MESSAGES) in
  let c := ExpectToBeVisible l (medium TIMEOUTS) in
  expectErrorVisible (Browser.lib name_matches text_matches) TIMEOUTS s =
  match Browser.currently_visible name_matches text_matches l b with
  | Returned true => mkResult (Returned tt) s [mkEvent c None]
  | Returned false =>
      mkResult (Thrown Browser.timed_out)
        (mkState (this s) (Browser.tick (MEDIUM TIMEOUTS) b))
        [mkEvent c (Some Browser.timed_out)]
  | Thrown e => mkResult (Thrown e) s [mkEvent c (Some e)]
  end.
Proof.
  unfold constructed, expectErrorVisible, medium, bind, await, field.
  cbn -[Browser.currently_visible getByText].
  destruct (Browser.currently_visible name_matches text_matches
              (getByText p (INVALID_LOGIN ERROR_MESSAGES)) b) as [[] | e];
    reflexivity.
Qed.

(** C6 (as the code has it). [expectErrorVisible] is one wait, bounded by
    [TIMEOUTS.MEDIUM], for the text locator the constructor built from
    [ERROR_MESSAGES.INVALID_LOGIN] to be visible: it awaits that call and
    nothing else, and completes as the call completes, throwing exactly
    when, and exactly what, the wait throws.  In the browser it returns,
    at once, exactly when the locator matches one element and that element
    is visible; it fails whenever the text is not visible, and then, unless
    several elements match, with the timeout after [TIMEOUTS.MEDIUM]; and
    it fails as well, with a strict-mode violation, when several elements
    match, visible or not. *)
Theorem expectErrorVisible_is_one_bounded_wait :
  forall (p : Page) (blank : LoginPage) (w : World),
    let s := constructed ERROR_MESSAGES p blank w in
    let l := getByText p (INVALID_LOGIN ERROR_MESSAGES) in
    let c := ExpectToBeVisible l (medium TIMEOUTS) in
    let r := expectErrorVisible lib TIMEOUTS s in
    errorMessage (this s) = l /\
    explicit_timeout c = Some (MEDIUM TIMEOUTS) /\
    events r = [mkEvent c (thrown_of (fst (lib c w)))] /\
    outcome r = fst (lib c w) /\
    final r = mkState (this s) (snd (lib c w)) /\
    (forall e, outcome r = Thrown e <-> fst (lib c w) = Thrown e) /\
    (forall name_matches text_matches (b : Browser.World),
       let rb :=
         expectErrorVisible (Browser.lib name_matches text_matches) TIMEOUTS
           (constructed ERROR_MESSAGES p blank b) in
       let found := matches_of name_matches text_matches l b in
       (outcome rb = Returned tt <->
        exists el, found = [el] /\ Browser.el_visible el = true) /\
       (outcome rb = Returned tt -> world (final rb) = b) /\
       (shows name_matches text_matches l b = false ->
        exists e, outcome rb = Thrown e) /\
       (shows name_matches text_matches l b = false ->
        (length found <= 1)%nat ->
        outcome rb = Thrown Browser.timed_out /\
        world (final rb) = Browser.tick (MEDIUM TIMEOUTS) b) /\
       ((2 <= length found)%nat ->
        outcome rb = Thrown Browser.strict_violation /\ world (final rb) = b)).
Proof.
  intros p blank w.
  split; [ reflexivity | split; [ reflexivity | ] ].
  split; [ | split; [ | split; [ | split ] ] ].
  1-4: unfold constructed; run_method; destruct (lib _ w) as [o w']; simpl;
       try reflexivity; intros e; split; intros H; exact H.
  intros nm tm b rb found. subst rb.
  rewrite expectErrorVisible_in_browser.
  rewrite shows_through_matches. fold found.
  unfold Browser.currently_visible, Browser.resolve.
  change (filter (Browser.resolves nm tm (getByText p (INVALID_LOGIN ERROR_MESSAGES)))
            (Browser.elements b)) with found.
  destruct found as [| el [| el' rest]]; simpl.
  - repeat split; try discriminate; try (intros; lia); eauto.
    intros [el [H _]]; discriminate H.
  - destruct (Browser.el_visible el) eqn:Hvis; simpl.
    + repeat split; try discriminate; try (intros; lia); eauto.
    + repeat split; try discriminate; try (intros; lia); eauto.
      intros [el0 [H Hv]]. inversion H; subst. congruence.
  - repeat split; try discriminate; try (intros; lia); eauto.
    intros [el0 [H _]]; discriminate H.
Qed.

Ltac distinct_calls :=
  unfold getByRole, getByText;
  repeat (constructor;
          [ let H := fresh "H" in
            simpl; intros H;
            repeat (destruct H as [H | H]; [ discriminate H | ]);
            exact H
          | ]);
  constructor.

Ltac timeouts_are_medium :=
  let c := fresh "c" in
  let t := fresh "t" in
  let Hin := fresh "Hin" in
  let Ht := fresh "Ht" in
  intros c t Hin Ht; simpl in Hin;
  repeat (destruct Hin as [Hin | Hin];
          [ subst c; simpl in Ht;
            first [ discriminate Ht | inversion Ht; reflexivity ]
          | ]);
  destruct Hin.

(** C4 (as the code has it). On a constructed page object, every operation
    other than the popup dismissal propagates the failure of any of its
    calls unchanged, the calls of the popup-dismissal step inside [login]
    excepted, whose failures that step swallows: the failed call is the
    last call of the operation and the operation throws what it threw, so
    nothing is retried and nothing recovers.  An operation that throws
    throws what its last call threw.  No call is made twice within one
    operation, and every explicit timeout is [TIMEOUTS.MEDIUM]. *)
Theorem failures_outside_popup_step_propagate :
  forall (p : Page) (blank : LoginPage) (w : World) (op : Op),
    op <> OpMaybeCloseWelcomePopup ->
    let s := constructed ERROR_MESSAGES p blank w in
    let r := invoke lib TIMEOUTS op s in
    (forall before c e after,
       events r = before ++ mkEvent c (Some e) :: after ->
       ~ popup_call TIMEOUTS (startShoppingButton (this s)) c ->
       outcome r = Thrown e /\ after = []) /\
    (forall e, outcome r = Thrown e ->
       exists before c, events r = before ++ [mkEvent c (Some e)]) /\
    NoDup (calls r) /\
    (forall c t, In c (calls r) -> explicit_timeout c = Some t -> t = MEDIUM TIMEOUTS).
Proof.
  intros p blank w op Hop. unfold constructed.
  destruct op; try congruence; clear Hop; run_method; repeat ask_env.
  all: split; [ apply propagation_by_entries; entries_propagate | ].
  all: split;
    [ let e := fresh "e" in
      let Ho := fresh "Ho" in
      intros e Ho; try discriminate Ho; inversion Ho; subst; split_last | ].
  all: split; [ distinct_calls | timeouts_are_medium ].
Qed.




(** ** Beyond the listed properties: what else every run satisfies *)

Lemma last_of_split (l before : list Event) (x d : Event) :
  l = before ++ [x] -> last l d = x.
Proof. intros ->. apply last_last. Qed.

Lemma each_with_before_split (P : list Event -> Event -> Prop) (l : list Event) :
  forall seen,
    each_with_before P seen l ->
    forall before ev after, l = before ++ ev :: after -> P (seen ++ before) ev.
Proof.
  induction l as [| x l IH]; intros seen H before ev after Hl.
  - destruct before; discriminate Hl.
  - destruct H as [Hx Hrest]. destruct before as [| y before]; simpl in Hl.
    + inversion Hl; subst. rewrite app_nil_r. exact Hx.
    + inversion Hl; subst.
      specialize (IH _ Hrest before ev after eq_refl).
      rewrite <- app_assoc in IH. exact IH.
Qed.

Ltac find_in := simpl; repeat first [ left; reflexivity | right ].

Ltac no_failure_contradiction Hall :=
  exfalso;
  match goal with
  | x : JsValue |- _ =>
      match type of Hall with
      | context [mkEvent ?c (Some x)] =>
          specialize (Hall (mkEvent c (Some x))); simpl in Hall;
          assert (Some x = None) by (apply Hall; tauto); discriminate
      end
  end.

(** X1. The popup dismissal touches nothing but the dismiss button and the
    logger: each of its calls is the visibility query, the click or the
    hidden-wait on that button, or the warning, whose payload is the reason
    of a failure of one of those three.  No call is made twice, at most one
    warning is logged, and one is logged exactly when a call has thrown. *)
Theorem maybeCloseWelcomePopup_warns_once_iff_failed :
  forall s : State World,
    let b := startShoppingButton (this s) in
    let r := maybeCloseWelcomePopup lib TIMEOUTS s in
    (forall ev, In ev (events r) ->
       popup_call TIMEOUTS b (ev_call ev) \/
       exists c e,
         popup_call TIMEOUTS b c /\
         In (mkEvent c (Some e)) (events r) /\
         ev_call ev =
           LoggerWarn "Welcome popup handling failed" (mkWarnMeta (error_reason e))) /\
    NoDup (calls r) /\
    (length (filter is_warning (events r)) <= 1)%nat /\
    (filter is_warning (events r) = [] <->
     forall ev, In ev (events r) -> ev_thrown ev = None).
Proof.
  intros [self w0]. unfold popup_call.
  run_method.
  repeat ask_env.
  all: split;
    [ intros ev Hin; simpl in Hin;
      repeat (destruct Hin as [Hin | Hin];
              [ subst ev; simpl;
                first [ left; tauto
                      | right; do 2 eexists;
                        split; [ | split; [ | reflexivity ] ];
                        [ | find_in ]; tauto ]
              | ]);
      destruct Hin
    | ].
  all: split;
    [ repeat (constructor;
              [ let H := fresh "H" in
                simpl; intros H;
                repeat (destruct H as [H | H]; [ discriminate H | ]);
                exact H
              | ]);
      constructor
    | ].
  all: split; [ simpl; lia | ].
  all: split;
    [ intros Hnone; try discriminate Hnone;
      intros ev Hin; simpl in Hin;
      repeat (destruct Hin as [Hin | Hin]; [ subst ev; reflexivity | ]);
      destruct Hin
    | intros Hall; first [ reflexivity | no_failure_contradiction Hall ] ].
Qed.

(** X2. The popup dismissal throws exactly when the logger's warning call
    throws, and then throws that very value: the handler of the [catch] is
    itself unprotected. *)
Theorem maybeCloseWelcomePopup_throws_iff_logger_throws :
  forall (s : State World) (e : JsValue),
    let r := maybeCloseWelcomePopup lib TIMEOUTS s in
    outcome r = Thrown e <->
    exists before message meta,
      events r = before ++ [mkEvent (LoggerWarn message meta) (Some e)].
Proof.
  intros [self w0] e.
  run_method.
  repeat ask_env.
  all: split;
    [ intros Ho; try discriminate Ho; inversion Ho; subst;
      match goal with
      | |- exists before, exists m, exists p, ?l = _ =>
          exists (removelast l); simpl; do 2 eexists; reflexivity
      end
    | intros [before [message [meta Hev]]];
      apply (last_of_split _ _ _ (mkEvent (LoggerWarn message meta) None)) in Hev;
      simpl in Hev; inversion Hev; subst; reflexivity ].
Qed.

(** X3. On a constructed page object [login] acts only after its waits:
    the login tab is clicked only once it has been awaited visible; a field
    is filled only after the tab was clicked and both fields were awaited
    visible; the login button is clicked only after both fills have
    returned.  And [login] returns exactly when that last click was made
    and returned. *)
Theorem login_acts_only_after_its_waits :
  forall (p : Page) (blank : LoginPage) (w : World) (email password : string),
    let s := constructed ERROR_MESSAGES p blank w in
    let self := this s in
    let r := login lib TIMEOUTS email password s in
    (forall before c o after,
       events r = before ++ mkEvent c o :: after ->
       (c = LocatorClick (loginTab self) ->
        In (mkEvent (ExpectToBeVisible (loginTab self) (medium TIMEOUTS)) None) before) /\
       (forall l v, c = LocatorFill l v ->
          In (mkEvent (LocatorClick (loginTab self)) None) before /\
          In (mkEvent (ExpectToBeVisible (emailInput self) (medium TIMEOUTS)) None) before /\
          In (mkEvent (ExpectToBeVisible (passwordInput self) None) None) before) /\
       (c = LocatorClick (loginButton self) ->
        In (mkEvent (LocatorFill (emailInput self) email) None) before /\
        In (mkEvent (LocatorFill (passwordInput self) password) None) before)) /\
    (outcome r = Returned tt <->
     exists before, events r = before ++ [mkEvent (LocatorClick (loginButton self)) None]).
Proof.
  intros p blank w email password. unfold constructed.
  run_method. unfold getByRole, getByText.
  repeat ask_env.
  all: split;
    [ intros before c o after Hev;
      match type of Hev with
      | ?evs = _ =>
          refine (each_with_before_split
                    (fun seen ev =>
                       (ev_call ev = _ -> In _ seen) /\
                       (forall l v, ev_call ev = LocatorFill l v ->
                          In _ seen /\ In _ seen /\ In _ seen) /\
                       (ev_call ev = _ -> In _ seen /\ In _ seen))
                    evs [] _ before (mkEvent c o) after Hev)
      end;
      simpl;
      repeat split; intros;
      first [ match goal with
              | H : _ = _ |- _ => discriminate H
              end
            | find_in ]
    | ].
  all: split;
    [ intros Ho; try discriminate Ho;
      match goal with
      | |- exists before, ?l = _ => exists (removelast l); reflexivity
      end
    | intros [before Hev];
      apply (last_of_split _ _ _ (mkEvent (LoggerWarn "" (mkWarnMeta "")) None)) in Hev;
      simpl in Hev; first [ reflexivity | discriminate Hev ] ].
Qed.

(** X4. The credentials reach nothing but the two fills.  Every call of
    [login] is the fill of the email field with the email, the fill of the
    password field with the password, the warning of the popup dismissal,
    or one of nine calls in which no credential occurs.  Whatever the
    email and the password, [login] does the same up to its first fill;
    and a warning, if one is logged, carries the reason of a failure from
    before the first fill. *)
Theorem login_credentials_reach_only_the_fills :
  forall (email password email' password' : string) (s : State World),
    let r := login lib TIMEOUTS email password s in
    let r' := login lib TIMEOUTS email' password' s in
    (forall c, In c (calls r) ->
       c = LocatorFill (emailInput (this s)) email \/
       c = LocatorFill (passwordInput (this s)) password \/
       (exists e, c = popup_warning e) \/
       In c (credential_free_calls TIMEOUTS (this s))) /\
    until_fill (events r) = until_fill (events r') /\
    (forall l v, In (LocatorFill l v) (calls r) ->
       (l = emailInput (this s) /\ v = email) \/
       (l = passwordInput (this s) /\ v = password)) /\
    (forall message meta, In (LoggerWarn message meta) (calls r) ->
       message = "Welcome popup handling failed" /\
       exists c e,
         In (mkEvent c (Some e)) (until_fill (events r)) /\
         meta = mkWarnMeta (error_reason e)).
Proof.
  intros email password email' password' [self w0].
  unfold credential_free_calls, popup_warning.
  run_method.
  repeat ask_env.
  all: split;
    [ intros c Hin; simpl in Hin;
      repeat (destruct Hin as [Hin | Hin];
              [ subst c;
                first [ left; reflexivity
                      | right; left; reflexivity
                      | right; right; left; eexists; reflexivity
                      | right; right; right; find_in ]
              | ]);
      destruct Hin
    | ].
  all: split; [ reflexivity | ].
  all: split;
    [ intros l v Hin; simpl in Hin;
      repeat (destruct Hin as [Hin | Hin];
              [ first [ discriminate Hin | inversion Hin; subst; tauto ] | ]);
      destruct Hin
    | intros message meta Hin; simpl in Hin;
      repeat (destruct Hin as [Hin | Hin];
              [ first [ discriminate Hin
                      | inversion Hin; subst;
                        split; [ reflexivity | ];
                        do 2 eexists; split; [ find_in | reflexivity ] ]
              | ]);
      destruct Hin ].
Qed.

(** X5. Trouble with the popup never fails a login: the logger's warning
    call being one that returns, a [login] that throws throws what the
    navigation or one of its seven steps after the popup threw, that call
    being its last. *)
Theorem login_fails_only_on_its_own_steps :
  (forall message meta w, fst (lib (LoggerWarn message meta) w) = Returned tt) ->
  forall (p : Page) (blank : LoginPage) (w : World) (email password : string) (e : JsValue),
    let s := constructed ERROR_MESSAGES p blank w in
    let self := this s in
    let r := login lib TIMEOUTS email password s in
    outcome r = Thrown e ->
    exists before c,
      events r = before ++ [mkEvent c (Some e)] /\
      In c (PageGoto (page self) "/login" (Some (mkGotoOptions domcontentloaded))
              :: spec_login_steps TIMEOUTS self email password) /\
      ~ popup_call TIMEOUTS (startShoppingButton self) c.
Proof.
  intros Hlog p blank w email password e. unfold constructed, spec_login_steps, popup_call.
  run_method. unfold getByRole, getByText.
  repeat ask_env; try logger_ok Hlog.
  all: intros Ho; try discriminate Ho; inversion Ho; subst.
  all: match goal with
       | |- exists before, exists c, ?l = _ /\ _ =>
           exists (removelast l); simpl; eexists;
           split; [ reflexivity | split; [ find_in | ] ]
       end.
  all: let H := fresh "H" in intros [H | [H | H]]; discriminate H.
Qed.

End LoginPageFacts.

(** ** The two navigations *)


(** ** Exact matching of the popup-dismiss button *)

Section ExactName.

Variable name_matches : option bool -> string -> string -> bool.
Variable text_matches : string -> string -> bool.

(** With [exact: true] the library matches the whole name only. *)
Hypothesis exact_name_is_whole_name :
  forall pattern n, name_matches (Some true) pattern n = true -> n = pattern.

Lemma filter_nothing {A : Type} (f : A -> bool) (l : list A) :
  (forall x, In x l -> f x = false) -> filter f l = [].
Proof.
  induction l as [| x l IH]; intros H; simpl.
  - reflexivity.
  - rewrite (H x (or_introl eq_refl)). apply IH.
    intros y Hy. apply H. right. exact Hy.
Qed.

Lemma dismiss_needs_the_whole_name (p : Page) (el : Browser.Element) :
  Browser.el_name el <> "Start Shopping" ->
  Browser.resolves name_matches text_matches
    (getByRole p "button" (mkByRoleOptions "Start Shopping" (Some true))) el = false.
Proof.
  intros Hname. unfold Browser.resolves. simpl.
  destruct (name_matches (Some true) "Start Shopping" (Browser.el_name el)) eqn:Hm.
  - apply exact_name_is_whole_name in Hm. contradiction.
  - apply andb_false_r.
Qed.

(** C10. Of the locators the constructor builds, the popup-dismiss button
    is the only one created with [exact: true]; the others carry no
    [exact] option.  So, the library matching an exact name as the whole
    name, an element whose name is not exactly ["Start Shopping"] is not
    what the dismiss locator resolves to, and on a page with no element of
    exactly that name the popup dismissal finds the button not visible and
    does nothing else. *)
Theorem only_dismiss_button_matches_exactly :
  forall (T : TimeoutsTable) (E : ErrorMessagesTable) (p : Page) (blank : LoginPage)
         (b : Browser.World),
    let s := constructed E p blank b in
    let dismiss := startShoppingButton (this s) in
    dismiss = getByRole p "button" (mkByRoleOptions "Start Shopping" (Some true)) /\
    locator_exact dismiss = Some true /\
    (forall l, In l (locators (this s)) -> l <> dismiss -> locator_exact l = None) /\
    (forall el, Browser.el_name el <> "Start Shopping" ->
                Browser.resolves name_matches text_matches dismiss el = false) /\
    ((forall el, In el (Browser.elements b) -> Browser.el_name el <> "Start Shopping") ->
     let r := maybeCloseWelcomePopup (Browser.lib name_matches text_matches) T s in
     events r = [mkEvent (LocatorIsVisible dismiss) None] /\
     outcome r = Returned tt /\
     final r = s).
Proof.
  intros T E p blank b s dismiss.
  split; [ reflexivity | split; [ reflexivity | split; [ | split ] ] ].
  - intros l Hin Hneq. simpl in Hin.
    repeat (destruct Hin as [Hin | Hin]; [ subst l; try reflexivity | ]).
    + contradiction Hneq. reflexivity.
    + destruct Hin.
  - intros el Hname. apply dismiss_needs_the_whole_name. exact Hname.
  - intros Hnone.
    assert (Hvis :
      Browser.lib name_matches text_matches
        (LocatorIsVisible (getByRole p "button" (mkByRoleOptions "Start Shopping" (Some true))))
        b = (Returned false, b)).
    { unfold Browser.lib, Browser.currently_visible, Browser.resolve.
      rewrite filter_nothing; [ reflexivity | ].
      intros el Hin. apply dismiss_needs_the_whole_name. apply Hnone. exact Hin. }
    subst dismiss s.
    unfold constructed, maybeCloseWelcomePopup, bind, try_catch, call, await, field, ret.
    cbn -[Browser.lib getByRole].
    rewrite Hvis. repeat split.
Qed.

End ExactName.

(** ** Concrete runs *)


(** The popup is on the page: it is clicked, then awaited hidden, and it
    is gone from the page the operation leaves.  With a button of another
    name there is nothing to dismiss and the page is left as it was. *)
Lemma maybeCloseWelcomePopup_clicks_iff_visible_witness :
  let b := Sample.browser "Start Shopping" in
  let r := maybeCloseWelcomePopup Sample.documented_lib Sample.timeouts
             (mkState Sample.self b) in
  let other := Sample.browser "Continue" in
  (events r =
     [ mkEvent (LocatorIsVisible Sample.dismiss) None;
       mkEvent (LocatorClick Sample.dismiss) None;
       mkEvent (ExpectToBeHidden Sample.dismiss (medium Sample.timeouts)) None ] /\
   outcome r = Returned tt /\
   map Browser.el_visible (Browser.elements (world (final r))) =
     [false; true; true; true; true]) /\
  maybeCloseWelcomePopup Sample.documented_lib Sample.timeouts (mkState Sample.self other) =
  mkResult (Returned tt) (mkState Sample.self other)
    [mkEvent (LocatorIsVisible Sample.dismiss) None].
Proof.
  intros b r other.
  destruct (maybeCloseWelcomePopup_clicks_iff_visible
              Browser.World Sample.documented_lib Sample.timeouts (mkState Sample.self b))
    as [_ [Hvisible [_ [_ Habsent]]]].
  split.
  - destruct (Hvisible b eq_refl) as [_ [Hreturns _]].
    assert (Hr : r = _) by (apply Hreturns; reflexivity).
    clearbody r. subst r. repeat split.
  - apply (Habsent Browser.documented_name_matches Browser.documented_text_matches other).
    reflexivity.
Defined.

(** A login on the sample page, popup included, makes the eleven calls and
    leaves the page 120 ms later, the popup gone and both fields filled. *)
Lemma login_performs_spec_sequence_witness :
  let s := mkState Sample.self (Sample.browser "Start Shopping") in
  let r := login Sample.documented_lib Sample.timeouts "bad@example.com" "wrongpass" s in
  calls r =
    PageGoto Sample.tab "/login" (Some (mkGotoOptions domcontentloaded))
    :: [ LocatorIsVisible Sample.dismiss;
         LocatorClick Sample.dismiss;
         ExpectToBeHidden Sample.dismiss (medium Sample.timeouts) ]
    ++ spec_login_steps Sample.timeouts Sample.self "bad@example.com" "wrongpass" /\
  outcome r = Returned tt /\
  Browser.clock (world (final r)) = 120 /\
  map (fun el => (Browser.el_name el, Browser.el_text el, Browser.el_visible el))
    (Browser.elements (world (final r))) =
    [ ("Start Shopping", "Start Shopping", false);
      ("Log in", "Log in", true);
      ("Email", "bad@example.com", true);
      ("Password", "wrongpass", true);
      ("Log in", "Log in", true) ].
Proof.
  intros s r.
  destruct (login_performs_spec_sequence
              Browser.World Sample.documented_lib Sample.timeouts
              "bad@example.com" "wrongpass" s)
    as [_ [_ [_ [_ [_ [_ Hall]]]]]].
  assert (Hr : r = _) by (apply Hall; reflexivity).
  clearbody r. subst r. repeat split.
Defined.

(** On the sample page the three checks pass and cost nothing; on a page
    without the login tab the first check times out after
    [TIMEOUTS.MEDIUM] and the others are not made. *)
Lemma expectStillOnLoginPage_checks_in_order_witness :
  let s := mkState Sample.self (Sample.browser "Start Shopping") in
  let r := expectStillOnLoginPage Sample.documented_lib Sample.timeouts s in
  let r' := expectStillOnLoginPage Sample.documented_lib Sample.timeouts
              (mkState Sample.self SamplePages.elsewhere) in
  (calls r =
     [ ExpectToBeVisible (loginTab Sample.self) (medium Sample.timeouts);
       ExpectToBeVisible (emailInput Sample.self) None;
       ExpectToBeVisible (passwordInput Sample.self) None ] /\
   outcome r = Returned tt /\
   final r = s) /\
  (events r' =
     [ mkEvent (ExpectToBeVisible (loginTab Sample.self) (medium Sample.timeouts))
         (Some Browser.timed_out) ] /\
   outcome r' = Thrown Browser.timed_out /\
   Browser.clock (world (final r')) = 10000).
Proof.
  intros s r r'.
  destruct (expectStillOnLoginPage_checks_in_order
              Browser.World Sample.documented_lib Sample.timeouts s)
    as [Hr [_ [_ Hall]]].
  destruct (expectStillOnLoginPage_checks_in_order
              Browser.World Sample.documented_lib Sample.timeouts
              (mkState Sample.self SamplePages.elsewhere))
    as [Hr' [_ [Hfails _]]].
  split.
  - destruct Hall as [Hcalls Hout].
    + intros ev Hin. simpl in Hin.
      repeat (destruct Hin as [Hin | Hin]; [ subst ev; reflexivity | ]).
      destruct Hin.
    + split; [ exact Hcalls | split; [ exact Hout | ] ].
      fold r in Hr. clearbody r. subst r. reflexivity.
  - fold r' in Hr'. clearbody r'. subst r'. repeat split.
Defined.

(** No popup on the page; the login tab never shows: [login] throws the
    timeout of that wait and awaits nothing after it. *)
Lemma failures_outside_popup_step_propagate_witness :
  let timeout_error := JsError "Timed out waiting for expect(locator).toBeVisible()" in
  let script :=
    [Scripted.Resolve; Scripted.ResolveWith false; Scripted.Reject timeout_error] in
  let r := invoke Scripted.lib Sample.timeouts (OpLogin "user@example.com" "secret")
             (constructed Sample.messages Sample.tab Sample.blank script) in
  OpLogin "user@example.com" "secret" <> OpMaybeCloseWelcomePopup /\
  outcome r = Thrown timeout_error.
Proof.
  intros timeout_error script r.
  assert (Hop : OpLogin "user@example.com" "secret" <> OpMaybeCloseWelcomePopup)
    by discriminate.
  split; [ exact Hop | ].
  destruct (failures_outside_popup_step_propagate
              Scripted.World Scripted.lib Sample.timeouts Sample.messages
              Sample.tab Sample.blank script (OpLogin "user@example.com" "secret") Hop)
    as [Hpropagates _].
  apply (Hpropagates
           [ mkEvent (PageGoto Sample.tab "/login" (Some (mkGotoOptions domcontentloaded))) None;
             mkEvent (LocatorIsVisible Sample.dismiss) None ]
           (ExpectToBeVisible (loginTab Sample.self) (medium Sample.timeouts))
           timeout_error []).
  - reflexivity.
  - unfold popup_call. intros [H | [H | H]]; discriminate H.
Defined.


(** A popup whose button reads "Start Shopping Now": a locator without
    [exact] finds it, the dismiss locator does not, and the popup dismissal
    leaves it alone. *)
Lemma only_dismiss_button_matches_exactly_witness :
  let button := Sample.element "button" "Start Shopping Now" true true in
  let b := Sample.browser "Start Shopping Now" in
  let r := maybeCloseWelcomePopup Sample.documented_lib Sample.timeouts
             (mkState Sample.self b) in
  Browser.resolves Browser.documented_name_matches Browser.documented_text_matches
    (getByRole Sample.tab "button" (mkByRoleOptions "Start Shopping" None)) button = true /\
  Browser.resolves Browser.documented_name_matches Browser.documented_text_matches
    Sample.dismiss button = false /\
  events r = [mkEvent (LocatorIsVisible Sample.dismiss) None] /\
  outcome r = Returned tt.
Proof.
  intros button b r.
  assert (Hexact : forall pattern n,
             Browser.documented_name_matches (Some true) pattern n = true -> n = pattern).
  { intros pattern n H. simpl in H. apply String.eqb_eq in H. symmetry. exact H. }
  destruct (only_dismiss_button_matches_exactly
              Browser.documented_name_matches Browser.documented_text_matches Hexact
              Sample.timeouts Sample.messages Sample.tab Sample.blank b)
    as [_ [_ [_ [Hmiss Hnoop]]]].
  split; [ reflexivity | ].
  split; [ apply Hmiss; discriminate | ].
  destruct Hnoop as [Hev [Hout _]].
  - intros el Hin. simpl in Hin.
    repeat (destruct Hin as [Hin | Hin]; [ subst el; discriminate | ]).
    destruct Hin.
  - split; [ exact Hev | exact Hout ].
Defined.

(** With the error text shown once the assertion passes at once; on the
    sample page, which shows none, it times out after [TIMEOUTS.MEDIUM];
    with the text shown twice it fails at once. *)
Lemma expectErrorVisible_is_one_bounded_wait_witness :
  let run b :=
    expectErrorVisible Sample.documented_lib Sample.timeouts
      (constructed Sample.messages Sample.tab Sample.blank b) in
  (outcome (run SamplePages.rejected_once) = Returned tt /\
   world (final (run SamplePages.rejected_once)) = SamplePages.rejected_once) /\
  (outcome (run (Sample.browser "Start Shopping")) = Thrown Browser.timed_out /\
   Browser.clock (world (final (run (Sample.browser "Start Shopping")))) = 10000) /\
  (outcome (run SamplePages.rejected_twice) = Thrown Browser.strict_violation /\
   Browser.clock (world (final (run SamplePages.rejected_twice))) = 0).
Proof.
  intros run.
  pose proof (fun b =>
    proj2 (proj2 (proj2 (proj2 (proj2 (proj2
      (expectErrorVisible_is_one_bounded_wait
         Browser.World Sample.documented_lib Sample.timeouts Sample.messages
         Sample.tab Sample.blank b))))))
      Browser.documented_name_matches Browser.documented_text_matches b) as Hbrowser.
  split; [ | split ].
  - destruct (Hbrowser SamplePages.rejected_once) as [Hreturns [Hsame _]].
    assert (Hout : outcome (run SamplePages.rejected_once) = Returned tt).
    { apply Hreturns. eexists. split; reflexivity. }
    split; [ exact Hout | apply Hsame; exact Hout ].
  - destruct (Hbrowser (Sample.browser "Start Shopping")) as [_ [_ [_ [Htimeout _]]]].
    destruct Htimeout as [Hout Hworld].
    + reflexivity.
    + simpl. lia.
    + split; [ exact Hout | ].
      exact (eq_trans (f_equal Browser.clock Hworld) eq_refl).
  - destruct (Hbrowser SamplePages.rejected_twice) as [_ [_ [_ [_ Hstrict]]]].
    destruct Hstrict as [Hout Hworld].
    + simpl. lia.
    + split; [ exact Hout | ].
      exact (eq_trans (f_equal Browser.clock Hworld) eq_refl).
Defined.

(** Three operations in a row, a call of the first one failing: the object is the
    one the constructor built. *)
Lemma page_object_fields_are_fixed_witness :
  let script := [Scripted.Reject (JsError "net::ERR_CONNECTION_REFUSED")] in
  let s := constructed Sample.messages Sample.tab Sample.blank script in
  this (lifetime Scripted.lib Sample.timeouts
          [OpMaybeCloseWelcomePopup; OpGoto; OpLogin "user@example.com" "secret"] s) =
  Sample.self.
Proof.
  intros script s.
  destruct (page_object_fields_are_fixed
              Scripted.World Scripted.lib Sample.timeouts Sample.messages
              Sample.tab Sample.blank script)
    as [_ [_ [_ [Hlifetime _]]]].
  rewrite Hlifetime. reflexivity.
Defined.

(** The error text is visible, twice, and [expectErrorVisible] fails. *)
Lemma expectErrorVisible_fails_though_text_is_visible :
  let r := expectErrorVisible Sample.documented_lib Sample.timeouts
             (mkState Sample.self SamplePages.rejected_twice) in
  ~ ((exists e, outcome r = Thrown e) <->
     shows Browser.documented_name_matches Browser.documented_text_matches
       SamplePages.error_text SamplePages.rejected_twice = false).
Proof.
  intros r [Hfails _].
  assert (Hthrows : exists e, outcome r = Thrown e) by (eexists; reflexivity).
  apply Hfails in Hthrows. vm_compute in Hthrows. discriminate Hthrows.
Qed.

(** The constructor binds six locators, not seven: the seventh field is
    the session handle. *)
Lemma constructor_does_not_bind_seven_locators :
  ~ length (locators
              (this (final (constructor Sample.messages Sample.tab
                              (mkState Sample.blank tt))))) = 7%nat.
Proof. simpl. discriminate. Qed.

(** The popup button's visibility query fails inside [login]: the failure
    is among the calls of [login], yet [login] returns. *)
Lemma login_swallows_popup_step_failure :
  let s := mkState Sample.self
             [Scripted.Resolve; Scripted.Reject (JsError "Target closed")] in
  let r := login Scripted.lib Sample.timeouts "user@example.com" "secret" s in
  ~ (forall c e, In (mkEvent c (Some e)) (events r) -> outcome r = Thrown e).
Proof.
  intros s r Hclaim.
  specialize (Hclaim (LocatorIsVisible Sample.dismiss) (JsError "Target closed")).
  assert (Hin : In (mkEvent (LocatorIsVisible Sample.dismiss)
                      (Some (JsError "Target closed"))) (events r)).
  { simpl. right. left. reflexivity. }
  specialize (Hclaim Hin). discriminate Hclaim.
Qed.

(** The visibility query fails and so does the logger: with the script
    driving the logger too, the popup dismissal throws what the logger
    threw. *)
Lemma maybeCloseWelcomePopup_throws_iff_logger_throws_witness :
  let detached := JsError "Target page, context or browser has been closed" in
  let disk_full := JsError "ENOSPC: no space left on device" in
  let s := mkState Sample.self [Scripted.Reject detached; Scripted.Reject disk_full] in
  outcome (maybeCloseWelcomePopup Scripted.replay Sample.timeouts s) = Thrown disk_full.
Proof.
  intros detached disk_full s.
  apply (maybeCloseWelcomePopup_throws_iff_logger_throws
           Scripted.World Scripted.replay Sample.timeouts s disk_full).
  exists [mkEvent (LocatorIsVisible Sample.dismiss) (Some detached)].
  exists "Welcome popup handling failed".
  exists (mkWarnMeta "Target page, context or browser has been closed").
  reflexivity.
Defined.

(** The popup's visibility query fails, then the login tab never shows:
    [login] throws the timeout of the tab, not the popup's failure. *)
Lemma login_fails_only_on_its_own_steps_witness :
  let detached := JsOther "frame was detached" in
  let timeout_error := JsError "Timed out waiting for expect(locator).toBeVisible()" in
  let script :=
    [Scripted.Resolve; Scripted.Reject detached; Scripted.Reject timeout_error] in
  let r := login Scripted.lib Sample.timeouts "user@example.com" "secret"
             (constructed Sample.messages Sample.tab Sample.blank script) in
  outcome r = Thrown timeout_error /\
  exists before c,
    events r = before ++ [mkEvent c (Some timeout_error)] /\
    In c (PageGoto Sample.tab "/login" (Some (mkGotoOptions domcontentloaded))
            :: spec_login_steps Sample.timeouts Sample.self "user@example.com" "secret") /\
    ~ popup_call Sample.timeouts Sample.dismiss c.
Proof.
  intros detached timeout_error script r.
  assert (Hlogger : forall message meta (w : Scripted.World),
             fst (Scripted.lib (LoggerWarn message meta) w) = Returned tt)
    by (intros message meta w; reflexivity).
  assert (Hthrown : outcome r = Thrown timeout_error) by reflexivity.
  split; [ exact Hthrown | ].
  exact (login_fails_only_on_its_own_steps
           Scripted.World Scripted.lib Sample.timeouts Sample.messages Hlogger
           Sample.tab Sample.blank script "user@example.com" "secret"
           timeout_error Hthrown).
Defined.
